(** * WGS84 line coordinates of a latitudinal line

    A shallow embedding of [exploration/FunWithWGS84.ipynb]: the class
    [WGS84] holding the ellipsoid constants and the routine
    [line_coordinates_2d].

    Numbers.  The notebook computes with numpy's float64.  Here every
    float64 operation is read as the exact operation on the real numbers
    ([R] of the Standard Library): rounding is not modelled, and every
    statement below is a statement about that exact-arithmetic reading.
    The exact-arithmetic reading speaks for the code up to rounding, and
    only where rounding stays small: the statements on the routine are
    made for latitudes between -90 and 90 degrees.

    The module [Binary64] evaluates in IEEE 754 binary64 itself what
    IEEE 754 fixes bit for bit: the assertion of the class body and the
    two angles of the routine.  For very large latitudes the second
    angle rounds to the first, and the routine no longer behaves as it
    does in exact arithmetic.

    Effects.  The attributes of the class [WGS84] are Python globals which
    the routine reads at call time.  They are kept in an explicit store
    that every call receives and gives back; a call either returns a value
    or raises [LinAlgError] (what [numpy.linalg.inv] does on a singular
    matrix). *)

From Stdlib Require Import Floats.
From Stdlib Require Import Reals Lra Machin List ZArith.

Open Scope R_scope.

Set Warnings "-inexact-float".

(** ** numpy scalars *)

Module np.

(** [np.deg2rad(x)]: [x * pi / 180]. *)
Definition deg2rad (x : R) : R := x * (PI / 180).

(** [np.allclose(x, y)] on scalars, with numpy's default tolerances:
    [abs(x - y) <= atol + rtol * abs(y)]. *)
Definition rtol : R := 1 / 100000.
Definition atol : R := 1 / 100000000.

Definition allclose (x y : R) : bool :=
  if Rle_dec (Rabs (x - y)) (atol + rtol * Rabs y) then true else false.

End np.

(** ** 2x2 matrices and 2-vectors ([np.matrix], [np.array]) *)

Record vec2 : Set := Vec2 { v0 : R; v1 : R }.

Record mat2 : Set := Mat2 { m00 : R; m01 : R; m10 : R; m11 : R }.

(** [u2 - u1] on arrays. *)
Definition vsub (u w : vec2) : vec2 := Vec2 (v0 u - v0 w) (v1 u - v1 w).

(** [M * v] for a matrix and a vector reshaped to a column. *)
Definition mulv (M : mat2) (v : vec2) : vec2 :=
  Vec2 (m00 M * v0 v + m01 M * v1 v) (m10 M * v0 v + m11 M * v1 v).

Definition mmul (M N : mat2) : mat2 :=
  Mat2 (m00 M * m00 N + m01 M * m10 N) (m00 M * m01 N + m01 M * m11 N)
       (m10 M * m00 N + m11 M * m10 N) (m10 M * m01 N + m11 M * m11 N).

Definition eye : mat2 := Mat2 1 0 0 1.

Definition det (M : mat2) : R := m00 M * m11 M - m01 M * m10 M.

Definition is_zero (x : R) : bool :=
  if Req_dec_T x 0 then true else false.

(** [numpy.linalg.inv] on a 2x2 matrix.  numpy solves [A X = I] with
    LAPACK's [gesv]: an LU factorisation with partial pivoting (the row
    whose first entry is largest in absolute value, the first one on a
    tie, becomes the pivot row), followed by a forward and a backward
    substitution for every column of the permuted identity.  A zero pivot
    is reported as a singular matrix, which numpy raises as [LinAlgError]:
    [None] here. *)
Definition inv (A : mat2) : option mat2 :=
  let swap := if Rle_dec (Rabs (m10 A)) (Rabs (m00 A)) then false else true in
  let p  := if swap then m10 A else m00 A in
  let q  := if swap then m11 A else m01 A in
  let r0 := if swap then m00 A else m10 A in
  let r1 := if swap then m01 A else m11 A in
  if is_zero p then None
  else
    let l := r0 / p in
    let u := r1 - l * q in
    if is_zero u then None
    else
      let solve (b0 b1 : R) : R * R :=
        let y0 := b0 in
        let y1 := b1 - l * y0 in
        let x1 := y1 / u in
        let x0 := (y0 - q * x1) / p in
        (x0, x1) in
      let c0 := if swap then solve 0 1 else solve 1 0 in
      let c1 := if swap then solve 1 0 else solve 0 1 in
      Some (Mat2 (fst c0) (fst c1) (snd c0) (snd c1)).

(** ** The interpreter state and its monad *)

Module WGS84.

(** The attributes of the class [WGS84]. *)
Record t : Set := mk { a : R; b : R; f : R; e : R; e_p : R }.

(** The class body: the five assignments, then the [assert].  [None] is
    the [AssertionError]. *)
Definition class_body : option t :=
  let a := 6378137 in
  let b := 6356752.31424518 in
  let f := 1 / 298.257223563 in
  let e := sqrt ((a ^ 2 - b ^ 2) / (a ^ 2)) in
  let e_p := sqrt ((a ^ 2 - b ^ 2) / (b ^ 2)) in
  if np.allclose b (a * (1 - f)) then Some (mk a b f e e_p) else None.

End WGS84.

Inductive result (A : Type) : Type :=
| Ok (x : A)
| LinAlgError.

Arguments Ok {A} x.
Arguments LinAlgError {A}.

(** A computation reads and may write the class attributes. *)
Definition M (A : Type) : Type := WGS84.t -> result A * WGS84.t.

Definition ret {A} (x : A) : M A := fun s => (Ok x, s).

Definition bind {A B} (m : M A) (k : A -> M B) : M B :=
  fun s =>
    match m s with
    | (Ok x, s') => k x s'
    | (LinAlgError, s') => (LinAlgError, s')
    end.

(** [WGS84.<attr>]: an attribute read. *)
Definition getattr (attr : WGS84.t -> R) : M R := fun s => (Ok (attr s), s).

(** A library call which may raise. *)
Definition call {A} (o : option A) : M A :=
  fun s => match o with Some x => (Ok x, s) | None => (LinAlgError, s) end.

Notation "x <- m ;; k" := (bind m (fun x => k))
  (at level 61, m at next level, right associativity).

(** ** The routine *)

(** The matrix [A] of the routine. *)
Definition line_matrix (theta1 theta2 : R) : mat2 :=
  Mat2 (sin theta1) (- sin theta2) (- cos theta1) (cos theta2).

Definition line_coordinates_2d (lat : R) : M (R * R) :=
  let theta1 := np.deg2rad lat in
  let theta2 := np.deg2rad lat + PI / 2 in
  e <- getattr WGS84.e ;;
  a <- getattr WGS84.a ;;
  let delta := e ^ 2 * a * sin theta1 in
  let u1 := Vec2 0 0 in
  let u2 := Vec2 0 delta in
  let A := line_matrix theta1 theta2 in
  Ainv <- call (inv A) ;;
  let tau := mulv Ainv (vsub u2 u1) in
  ret (theta2, v0 tau).

(** The body of the routine after its first statement, for any two
    angles and any [solver] in the place of [inv]:
    [line_coordinates_2d lat] is
    [line_coordinates_2d_gen inv (deg2rad lat) (deg2rad lat + pi / 2)]. *)
Definition line_coordinates_2d_gen (solver : mat2 -> option mat2)
    (theta1 theta2 : R) : M (R * R) :=
  e <- getattr WGS84.e ;;
  a <- getattr WGS84.a ;;
  let delta := e ^ 2 * a * sin theta1 in
  let u1 := Vec2 0 0 in
  let u2 := Vec2 0 delta in
  let A := line_matrix theta1 theta2 in
  Ainv <- call (solver A) ;;
  let tau := mulv Ainv (vsub u2 u1) in
  ret (theta2, v0 tau).

(** The latitudes for which the statements on the routine are made. *)
Definition geodetic (lat : R) : Prop := -90 <= lat <= 90.

(** The calls made by the loop of the notebook's last cell, one per
    latitude, in order (the plotting between them is left out). *)
Fixpoint call_each (lats : list R) : M (list (R * R)) :=
  match lats with
  | nil => ret nil
  | lat :: rest =>
      line <- line_coordinates_2d lat ;;
      lines <- call_each rest ;;
      ret (line :: lines)
  end.

(** ** The class body in binary64

    The first three assignments and the [assert] use only float64
    operations that IEEE 754 fixes bit for bit (literals, [-], [*], [/],
    [abs], [<=]), so they can be evaluated as the interpreter does.  This
    is a cross-check of the exact-arithmetic reading above, on the one
    part of the notebook where that is possible ([sin], [cos] and
    LAPACK's solve have no bit-exact specification). *)

Module Binary64.

Definition a : float := 6378137%float.
Definition b : float := 6356752.31424518%float.
Definition f : float := (1 / 298.257223563)%float.

Definition allclose (x y : float) : bool :=
  PrimFloat.leb (PrimFloat.abs (x - y))
                (1e-8 + 1e-5 * PrimFloat.abs y)%float.

(** [np.allclose(b, a*(1-f))]. *)
Definition assertion : bool := allclose b (a * (1 - f))%float.

(** numpy's [pi], and [np.deg2rad(x)], which numpy computes as
    [x * (pi / 180)]. *)
Definition pi : float := 3.141592653589793%float.

Definition deg2rad (x : float) : float := (x * (pi / 180))%float.

(** The two angles of [line_coordinates_2d], as computed. *)
Definition theta1 (lat : float) : float := deg2rad lat.

Definition theta2 (lat : float) : float := (deg2rad lat + pi / 2)%float.

(** The real number a finite float stands for (0 for the others). *)
Definition to_R (x : float) : R :=
  match Prim2SF x with
  | S754_finite s m e => (if s then -1 else 1) * IZR (Zpos m) * powerRZ 2 e
  | _ => 0
  end.

End Binary64.

(** The routine with its two angles computed in binary64, the rest read
    in exact arithmetic as before.  When the two angles coincide the
    exact solve reports a singular matrix; numpy does so at 1e22
    degrees, the latitude used below, while at other such latitudes
    rounding inside LAPACK can hide the singularity and a meaningless
    pair comes back. *)
Definition line_coordinates_2d_binary64 (lat : float) : M (R * R) :=
  line_coordinates_2d_gen inv (Binary64.to_R (Binary64.theta1 lat))
                              (Binary64.to_R (Binary64.theta2 lat)).

(** ** The constants as initialised *)

(** The attributes as the class body leaves them. *)
Definition wgs84 : WGS84.t :=
  let a := 6378137 in
  let b := 6356752.31424518 in
  WGS84.mk a b (1 / 298.257223563)
    (sqrt ((a ^ 2 - b ^ 2) / (a ^ 2)))
    (sqrt ((a ^ 2 - b ^ 2) / (b ^ 2))).

(** ** Notions used by the statements *)

(** The closed form of the inverse: the adjugate over the determinant. *)
Definition adjugate_inverse (A : mat2) : mat2 :=
  Mat2 (m11 A / det A) (- m01 A / det A) (- m10 A / det A) (m00 A / det A).

(** The offset in closed form, for the attributes [s]. *)
Definition offset_formula (s : WGS84.t) (lat : R) : R :=
  - cos (np.deg2rad lat)
    * (WGS84.e s ^ 2 * WGS84.a s * sin (np.deg2rad lat)).

(** The offset component of what a call returns; [None] when it raises. *)
Definition offset_of (r : result (R * R) * WGS84.t) : option R :=
  match fst r with Ok (_, t) => Some t | LinAlgError => None end.

(** The routine "follows the algorithm with right-hand side [rhs]": the
    returned pair is [(theta2, tau1)] for a solution [(tau1, tau2)] of
    [A * (tau1, tau2) = rhs delta]. *)
Definition follows_algorithm (rhs : R -> vec2) (s : WGS84.t) (lat : R) : Prop :=
  let theta1 := np.deg2rad lat in
  let theta2 := theta1 + PI / 2 in
  let delta := WGS84.e s ^ 2 * WGS84.a s * sin theta1 in
  exists tau1 tau2 : R,
    mulv (line_matrix theta1 theta2) (Vec2 tau1 tau2) = rhs delta
    /\ fst (line_coordinates_2d lat s) = Ok (theta2, tau1).

(** The relations of the data model, read as exact equalities. *)
Definition data_model_relations (s : WGS84.t) : Prop :=
  WGS84.f s = 1 - WGS84.b s / WGS84.a s
  /\ WGS84.e s = sqrt ((WGS84.a s ^ 2 - WGS84.b s ^ 2) / WGS84.a s ^ 2).

(** ** The closed-form variant *)

(** Cramer's rule for [A * x = r]; [None] when the determinant is 0. *)
Definition cramer_solve (A : mat2) (r : vec2) : option vec2 :=
  let d := det A in
  if is_zero d then None
  else Some (Vec2 ((v0 r * m11 A - m01 A * v1 r) / d)
                  ((m00 A * v1 r - m10 A * v0 r) / d)).

(** The routine with [inv(A) * (u2 - u1)] replaced by the closed-form
    solve of the same system, as the design notes of the specification
    propose; a zero determinant is reported as the same error. *)
Definition line_coordinates_2d_cramer (lat : R) : M (R * R) :=
  let theta1 := np.deg2rad lat in
  let theta2 := np.deg2rad lat + PI / 2 in
  e <- getattr WGS84.e ;;
  a <- getattr WGS84.a ;;
  let delta := e ^ 2 * a * sin theta1 in
  let u1 := Vec2 0 0 in
  let u2 := Vec2 0 delta in
  let A := line_matrix theta1 theta2 in
  tau <- call (cramer_solve A (vsub u2 u1)) ;;
  ret (theta2, v0 tau).

(** * The plotting cells

    The two helpers [plot_earth] and [plot_line] and the last cell of the
    notebook, which draws the ellipse and one line per latitude.

    matplotlib is kept to what the cells use of it: an [Axes] object
    holds the patches added to it, the lines plotted on it, and its two
    view limits, which are [None] until a call of [set_xlim] or
    [set_ylim] fixes them (such a call switches autoscaling off, so a
    later [plot] leaves a fixed limit alone).  matplotlib refuses a
    colour with a component outside [0, 1] and widens a view limit whose
    two ends are equal; neither is modelled, and the statements below
    that depend on it are made for valid colours and distinct ends.

    The interpreter state has the class attributes, the global variable
    [ax] (unbound until the last cell assigns it) and the [Axes] objects,
    which are reached through references: two names may denote the same
    object.  The figure that owns the [Axes] is not modelled. *)

Module plt.

Definition color : Type := R * R * R.

(** The colour triples matplotlib accepts: components between 0 and
    1. *)
Definition valid_color (col : color) : Prop :=
  let '(r, g, b) := col in 0 <= r <= 1 /\ 0 <= g <= 1 /\ 0 <= b <= 1.

(** [matplotlib.patches.Ellipse]. *)
Record Ellipse : Type := mkEllipse
  { xy : R * R; width : R; height : R;
    alpha : option R; facecolor : option color }.

Definition set_alpha (x : R) (p : Ellipse) : Ellipse :=
  mkEllipse (xy p) (width p) (height p) (Some x) (facecolor p).

Definition set_facecolor (col : color) (p : Ellipse) : Ellipse :=
  mkEllipse (xy p) (width p) (height p) (alpha p) (Some col).

(** What one call of [ax.plot(x, y, c=..., lw=...)] adds. *)
Record Line2D : Type := mkLine2D
  { xdata : list R; ydata : list R; c : color; lw : R }.

Record Axes : Type := mkAxes
  { artists : list Ellipse; lines : list Line2D;
    xlim : option (R * R); ylim : option (R * R) }.

(** A new, empty [Axes] ([fig.add_subplot(111)]). *)
Definition add_subplot : Axes := mkAxes nil nil None None.

Definition add_artist (p : Ellipse) (A : Axes) : Axes :=
  mkAxes (artists A ++ p :: nil) (lines A) (xlim A) (ylim A).

Definition plot (xs ys : list R) (col : color) (w : R) (A : Axes) : Axes :=
  mkAxes (artists A) (lines A ++ mkLine2D xs ys col w :: nil)
         (xlim A) (ylim A).

Definition set_xlim (lim : R * R) (A : Axes) : Axes :=
  mkAxes (artists A) (lines A) (Some lim) (ylim A).

Definition set_ylim (lim : R * R) (A : Axes) : Axes :=
  mkAxes (artists A) (lines A) (xlim A) (Some lim).

End plt.

(** The exceptions the cells can raise. *)
Inductive exception : Set :=
| E_LinAlgError
| E_IndexError
| E_NameError.

Inductive outcome (A : Type) : Type :=
| Returns (x : A)
| Raises (e : exception).

Arguments Returns {A} x.
Arguments Raises {A} e.

(** The interpreter state: the attributes of [WGS84], the binding of the
    global [ax] (a reference), the objects by reference, and the next
    unused reference. *)
Record world : Type := World
  { attrs : WGS84.t; ax : option nat;
    objects : nat -> plt.Axes; fresh : nat }.

Definition P (A : Type) : Type := world -> outcome A * world.

Definition pret {A} (x : A) : P A := fun w => (Returns x, w).

Definition pbind {A B} (m : P A) (k : A -> P B) : P B :=
  fun w =>
    match m w with
    | (Returns x, w') => k x w'
    | (Raises e, w') => (Raises e, w')
    end.

Definition raise {A} (e : exception) : P A := fun w => (Raises e, w).

Declare Scope plot_scope.
Delimit Scope plot_scope with plot.

Notation "x <- m ;; k" := (pbind m (fun x => k))
  (at level 61, m at next level, right associativity) : plot_scope.

(** A call of a routine that only knows the class attributes. *)
Definition lift {A} (m : M A) : P A :=
  fun w =>
    match m (attrs w) with
    | (Ok x, s) => (Returns x, World s (ax w) (objects w) (fresh w))
    | (LinAlgError, s) =>
        (Raises E_LinAlgError, World s (ax w) (objects w) (fresh w))
    end.

(** [WGS84.<attr>]. *)
Definition attr (p : WGS84.t -> R) : P R := lift (getattr p).

(** The global name [ax]: [NameError] while it is unbound. *)
Definition global_ax : P nat :=
  fun w =>
    match ax w with
    | Some h => (Returns h, w)
    | None => (Raises E_NameError, w)
    end.

(** The object behind reference [h] replaced by [g] of it. *)
Definition update (h : nat) (g : plt.Axes -> plt.Axes)
    (objs : nat -> plt.Axes) : nat -> plt.Axes :=
  fun k => if Nat.eqb k h then g (objs k) else objs k.

(** A method call [<h>.method(...)] that mutates the object. *)
Definition method (h : nat) (g : plt.Axes -> plt.Axes) : P unit :=
  fun w =>
    (Returns tt, World (attrs w) (ax w) (update h g (objects w)) (fresh w)).

(** [margin[0]] and [margin[-1]] on a tuple: [IndexError] when it is
    empty. *)
Definition first_item (t : list R) : P R :=
  match t with
  | nil => raise E_IndexError
  | x :: _ => pret x
  end.

Definition last_item (t : list R) : P R :=
  match t with
  | nil => raise E_IndexError
  | x :: rest => pret (last rest x)
  end.

(** [plot_earth(axes, margin)].  The body never mentions [axes]: it
    works on the global [ax]. *)
Definition plot_earth (axes : nat) (margin : list R) : P unit :=
  (a <- attr WGS84.a ;;
   b <- attr WGS84.b ;;
   let earth_ellipse := plt.mkEllipse (0, 0) (2 * a) (2 * b) None None in
   let earth_ellipse := plt.set_alpha 0.5 earth_ellipse in
   let earth_ellipse := plt.set_facecolor (0.5, 0.7, 0.95) earth_ellipse in
   h <- global_ax ;;
   _ <- method h (plt.add_artist earth_ellipse) ;;
   a <- attr WGS84.a ;;
   m0 <- first_item margin ;;
   let x_m := a + m0 in
   b <- attr WGS84.b ;;
   m1 <- last_item margin ;;
   let y_m := b + m1 in
   h <- global_ax ;;
   _ <- method h (plt.set_xlim (- x_m, x_m)) ;;
   h <- global_ax ;;
   method h (plt.set_ylim (- y_m, y_m)))%plot.

(** The default [margin=(1000000,)]. *)
Definition default_margin : list R := 1000000 :: nil.

(** The array [pnts] of [plot_line]: [tau] repeated in two columns,
    times [e], plus [u], row by row. *)
Definition pnts (line : R * R) (tau : list R) : list (R * R) :=
  let '(theta, t) := line in
  let tau := map (fun x => (x, x)) tau in
  let u := (t * cos theta, t * sin theta) in
  let e := (sin theta, - cos theta) in
  map (fun row => (fst u + fst row * fst e, snd u + snd row * snd e)) tau.

(** [plot_line(axes, line, tau, color, linewidth)].  Here too [axes] is
    not used, the line goes to the global [ax]. *)
Definition plot_line (axes : nat) (line : R * R) (tau : list R)
    (color : plt.color) (linewidth : R) : P unit :=
  (let pnts := pnts line tau in
   h <- global_ax ;;
   method h (plt.plot (map fst pnts) (map snd pnts) color linewidth))%plot.

Definition default_color : plt.color := (0, 0, 0).
Definition default_linewidth : R := 1.

(** The [for] loop of the last cell over the latitudes [lats]. *)
Fixpoint for_lat (pseudo_r : R) (lats : list R) : P unit :=
  match lats with
  | nil => pret tt
  | lat :: rest =>
      (line <- lift (line_coordinates_2d lat) ;;
       h <- global_ax ;;
       _ <- plot_line h line (- pseudo_r / 2 :: pseudo_r :: nil)
              (1 * lat / 90, 1 * lat / 90, 1 * lat / 90) default_linewidth ;;
       for_lat pseudo_r rest)%plot
  end.

(** [fig = plt.figure(); ax = fig.add_subplot(111)]: a new object, to
    which the global [ax] is bound. *)
Definition new_axes : P unit :=
  fun w =>
    (Returns tt,
     World (attrs w) (Some (fresh w))
           (fun k => if Nat.eqb k (fresh w) then plt.add_subplot
                     else objects w k)
           (S (fresh w))).

(** The last cell. *)
Definition last_cell : P unit :=
  (_ <- new_axes ;;
   h <- global_ax ;;
   _ <- plot_earth h default_margin ;;
   a <- attr WGS84.a ;;
   b <- attr WGS84.b ;;
   let pseudo_r := (a + b) / 2 in
   _ <- for_lat pseudo_r (0 :: 15 :: 45 :: 75 :: 90 :: nil) ;;
   h <- global_ax ;;
   _ <- method h (plt.set_xlim (- 50000, 50000)) ;;
   h <- global_ax ;;
   method h (plt.set_ylim (- 50000, 50000)))%plot.

(** ** Notions used by the statements on plotting *)

(** Between [w] and [w'] the lines [Ls] were added, in that order, to the
    object behind [h], and nothing else changed: not the class attributes,
    not the binding of [ax], not any other object, not the patches or the
    view limits of that object. *)
Definition drew (h : nat) (w w' : world) (Ls : list plt.Line2D) : Prop :=
  attrs w' = attrs w /\ ax w' = ax w /\ fresh w' = fresh w
  /\ (forall k : nat, k <> h -> objects w' k = objects w k)
  /\ plt.artists (objects w' h) = plt.artists (objects w h)
  /\ plt.xlim (objects w' h) = plt.xlim (objects w h)
  /\ plt.ylim (objects w' h) = plt.ylim (objects w h)
  /\ plt.lines (objects w' h) = plt.lines (objects w h) ++ Ls.

(** The points of a plotted line. *)
Definition points (L : plt.Line2D) : list (R * R) :=
  combine (plt.xdata L) (plt.ydata L).

(** The ellipse that [plot_earth] adds, for the attributes [s]. *)
Definition earth_ellipse (s : WGS84.t) : plt.Ellipse :=
  plt.mkEllipse (0, 0) (2 * WGS84.a s) (2 * WGS84.b s)
                (Some 0.5) (Some (0.5, 0.7, 0.95)).

(** A world to try the statements on: the constants as initialised, the
    global [ax] bound to one empty [Axes]. *)
Definition sample_world : world :=
  World wgs84 (Some 0%nat) (fun _ => plt.add_subplot) 1.

(** The point [p] is on the line through [(0, - delta)] with direction
    [(cos theta1, sin theta1)], where [theta1 = deg2rad lat] and
    [delta = e^2 * a * sin theta1] for the attributes [s]. *)
Definition on_latitude_line (s : WGS84.t) (lat : R) (p : R * R) : Prop :=
  let theta1 := np.deg2rad lat in
  let delta := WGS84.e s ^ 2 * WGS84.a s * sin theta1 in
  exists x : R,
    p = (0 + x * cos theta1, - delta + x * sin theta1).

(** * Linear algebra: what [inv] returns *)

Lemma Rabs_le_zero (x y : R) : Rabs x <= Rabs y -> y = 0 -> x = 0.
Proof.
  intros Hle ->. rewrite Rabs_R0 in Hle.
  destruct (Req_dec x 0) as [Hx | Hx]; [exact Hx | ].
  apply Rabs_pos_lt in Hx. lra.
Qed.

Lemma Rabs_lt_zero (x y : R) : ~ Rabs x <= Rabs y -> x = 0 -> False.
Proof.
  intros Hle ->. apply Hle. rewrite Rabs_R0. apply Rabs_pos.
Qed.

Lemma inv_regular (A : mat2) :
  det A <> 0 -> inv A = Some (adjugate_inverse A).
Proof.
  destruct A as [a00 a01 a10 a11]. unfold inv, adjugate_inverse, is_zero, det.
  cbn [m00 m01 m10 m11]. intros Hdet.
  destruct (Rle_dec (Rabs a10) (Rabs a00)) as [Hpiv | Hpiv].
  - destruct (Req_dec_T a00 0) as [Hp | Hp].
    + exfalso. apply Hdet. rewrite (Rabs_le_zero _ _ Hpiv Hp), Hp. ring.
    + destruct (Req_dec_T (a11 - a10 / a00 * a01) 0) as [Hu | Hu].
      * exfalso. apply Hdet.
        replace (a00 * a11 - a01 * a10)
          with (a00 * (a11 - a10 / a00 * a01)) by (field; exact Hp).
        rewrite Hu. ring.
      * cbn [fst snd]. f_equal. f_equal; field; repeat split; auto; lra.
  - destruct (Req_dec_T a10 0) as [Hp | Hp].
    + exfalso. exact (Rabs_lt_zero _ _ Hpiv Hp).
    + destruct (Req_dec_T (a01 - a00 / a10 * a11) 0) as [Hu | Hu].
      * exfalso. apply Hdet.
        replace (a00 * a11 - a01 * a10)
          with (- a10 * (a01 - a00 / a10 * a11)) by (field; exact Hp).
        rewrite Hu. ring.
      * cbn [fst snd]. f_equal. f_equal; field; repeat split; auto; lra.
Qed.

Lemma inv_singular (A : mat2) : det A = 0 -> inv A = None.
Proof.
  destruct A as [a00 a01 a10 a11]. unfold inv, is_zero, det.
  cbn [m00 m01 m10 m11]. intros Hdet.
  destruct (Rle_dec (Rabs a10) (Rabs a00)) as [Hpiv | Hpiv].
  - destruct (Req_dec_T a00 0) as [Hp | Hp]; [reflexivity | ].
    destruct (Req_dec_T (a11 - a10 / a00 * a01) 0) as [Hu | Hu];
      [reflexivity | ].
    exfalso. apply Hu.
    replace (a11 - a10 / a00 * a01) with ((a00 * a11 - a01 * a10) / a00)
      by (field; exact Hp).
    rewrite Hdet. field. exact Hp.
  - destruct (Req_dec_T a10 0) as [Hp | Hp]; [reflexivity | ].
    destruct (Req_dec_T (a01 - a00 / a10 * a11) 0) as [Hu | Hu];
      [reflexivity | ].
    exfalso. apply Hu.
    replace (a01 - a00 / a10 * a11) with (- (a00 * a11 - a01 * a10) / a10)
      by (field; exact Hp).
    rewrite Hdet. field. exact Hp.
Qed.

(** [inv] returns a right and left inverse whenever it returns. *)
Lemma inv_sound (A B : mat2) :
  inv A = Some B -> mmul A B = eye /\ mmul B A = eye.
Proof.
  intros HB. destruct (Req_dec (det A) 0) as [Hd | Hd].
  - rewrite (inv_singular A Hd) in HB. discriminate.
  - rewrite (inv_regular A Hd) in HB. injection HB as <-.
    destruct A as [a00 a01 a10 a11].
    unfold mmul, eye, adjugate_inverse, det in *. cbn [m00 m01 m10 m11] in *.
    split; f_equal; field; exact Hd.
Qed.

(** * Trigonometry of the two normals *)

Lemma sin_shift_quarter (x : R) : sin (x + PI / 2) = cos x.
Proof. rewrite sin_plus, sin_PI2, cos_PI2. ring. Qed.

Lemma cos_shift_quarter (x : R) : cos (x + PI / 2) = - sin x.
Proof. rewrite cos_plus, sin_PI2, cos_PI2. ring. Qed.

Lemma sin2_cos2' (x : R) : sin x * sin x + cos x * cos x = 1.
Proof. generalize (sin2_cos2 x). unfold Rsqr. tauto. Qed.

Lemma line_matrix_perp (theta : R) :
  line_matrix theta (theta + PI / 2)
  = Mat2 (sin theta) (- cos theta) (- cos theta) (- sin theta).
Proof.
  unfold line_matrix. now rewrite sin_shift_quarter, cos_shift_quarter.
Qed.

Lemma det_line_matrix (theta : R) :
  det (line_matrix theta (theta + PI / 2)) = -1.
Proof.
  rewrite line_matrix_perp. unfold det. cbn [m00 m01 m10 m11].
  generalize (sin2_cos2' theta). lra.
Qed.

Lemma inv_line_matrix (theta : R) :
  inv (line_matrix theta (theta + PI / 2))
  = Some (Mat2 (sin theta) (- cos theta) (- cos theta) (- sin theta)).
Proof.
  rewrite inv_regular by (rewrite det_line_matrix; lra).
  unfold adjugate_inverse. rewrite det_line_matrix, line_matrix_perp.
  cbn [m00 m01 m10 m11]. f_equal. f_equal; field.
Qed.

(** * What a call returns *)

Lemma line_coordinates_2d_eq (lat : R) (s : WGS84.t) :
  line_coordinates_2d lat s
  = (Ok (np.deg2rad lat + PI / 2, offset_formula s lat), s).
Proof.
  unfold line_coordinates_2d, bind, getattr, call, ret.
  rewrite inv_line_matrix. unfold offset_formula, mulv, vsub.
  cbn [m00 m01 m10 m11 v0 v1]. do 3 f_equal. ring.
Qed.

(** * The ellipsoid constants *)

Lemma allclose_true (x y : R) :
  Rabs (x - y) <= np.atol + np.rtol * Rabs y -> np.allclose x y = true.
Proof.
  intros H. unfold np.allclose.
  destruct (Rle_dec (Rabs (x - y)) (np.atol + np.rtol * Rabs y));
    [reflexivity | contradiction].
Qed.

Lemma class_body_eq : WGS84.class_body = Some wgs84.
Proof.
  unfold WGS84.class_body. cbv zeta. rewrite allclose_true; [reflexivity | ].
  unfold np.atol, np.rtol.
  rewrite (Rabs_pos_eq (6378137 * _)) by lra.
  apply Rabs_le. lra.
Qed.

Lemma wgs84_e_sqr :
  WGS84.e wgs84 ^ 2
  = (6378137 ^ 2 - 6356752.31424518 ^ 2) / 6378137 ^ 2.
Proof.
  unfold wgs84. cbn [WGS84.e]. rewrite pow2_sqrt; [reflexivity | ].
  apply Rlt_le, Rdiv_lt_0_compat; lra.
Qed.

Lemma wgs84_e2a_pos : 0 < WGS84.e wgs84 ^ 2 * WGS84.a wgs84.
Proof.
  rewrite wgs84_e_sqr. cbn [WGS84.a wgs84].
  apply Rmult_lt_0_compat; [ | lra]. apply Rdiv_lt_0_compat; lra.
Qed.

(** A rational enclosure of [PI], from the arctangent series at 1/3 and
    1/7. *)
Lemma PI_enclosure : 3.14159265358979 < PI < 3.14159265358980.
Proof.
  generalize (PI_2_3_7_ineq 8).
  unfold PI_2_3_7_tg, tg_alt, Ratan_seq.
  cbn [sum_f_R0 Nat.mul Nat.add INR pow]. lra.
Qed.

Lemma deg2rad_45 : np.deg2rad 45 = PI / 4.
Proof. unfold np.deg2rad. field. Qed.

Lemma deg2rad_90 : np.deg2rad 90 = PI / 2.
Proof. unfold np.deg2rad. field. Qed.

Lemma deg2rad_opp (x : R) : np.deg2rad (- x) = - np.deg2rad x.
Proof. unfold np.deg2rad. ring. Qed.

Lemma sin_cos_quarter : sin (PI / 4) * cos (PI / 4) = 1 / 2.
Proof.
  generalize (sin_2a (PI / 4)).
  replace (2 * (PI / 4)) with (PI / 2) by field.
  rewrite sin_PI2. lra.
Qed.

Lemma offset_formula_double (s : WGS84.t) (lat : R) :
  offset_formula s lat
  = - (WGS84.e s ^ 2 * WGS84.a s / 2) * sin (2 * np.deg2rad lat).
Proof. unfold offset_formula. rewrite sin_2a. field. Qed.

Lemma offset_formula_opp (s : WGS84.t) (lat : R) :
  offset_formula s (- lat) = - offset_formula s lat.
Proof.
  unfold offset_formula. rewrite deg2rad_opp, cos_neg, sin_neg. ring.
Qed.

Lemma offset_formula_bound (s : WGS84.t) (lat : R) :
  Rabs (offset_formula s lat) <= Rabs (WGS84.e s ^ 2 * WGS84.a s / 2).
Proof.
  rewrite offset_formula_double, Rabs_mult, Rabs_Ropp.
  pose proof (SIN_bound (2 * np.deg2rad lat)) as [Hlo Hhi].
  assert (Hs : Rabs (sin (2 * np.deg2rad lat)) <= 1)
    by (apply Rabs_le; split; assumption).
  rewrite <- (Rmult_1_r (Rabs (_ / 2))) at 2.
  apply Rmult_le_compat_l; [apply Rabs_pos | exact Hs].
Qed.

Lemma offset_of_call (lat : R) (s : WGS84.t) :
  offset_of (line_coordinates_2d lat s) = Some (offset_formula s lat).
Proof. now rewrite line_coordinates_2d_eq. Qed.

(** The system with the two perpendicular normals has one solution. *)
Lemma line_system_solution (theta r tau1 tau2 : R) :
  mulv (line_matrix theta (theta + PI / 2)) (Vec2 tau1 tau2) = Vec2 0 r ->
  tau1 = - cos theta * r /\ tau2 = - sin theta * r.
Proof.
  rewrite line_matrix_perp. unfold mulv. cbn [m00 m01 m10 m11 v0 v1].
  intros Hsys. injection Hsys as H0 H1.
  pose proof (sin2_cos2' theta) as Hone.
  set (sn := sin theta) in *. set (cs := cos theta) in *. split.
  - transitivity ((sn * sn + cs * cs) * tau1); [rewrite Hone; ring | ].
    transitivity (sn * (sn * tau1 + - cs * tau2)
                  - cs * (- cs * tau1 + - sn * tau2)); [ring | ].
    rewrite H0, H1. ring.
  - transitivity ((sn * sn + cs * cs) * tau2); [rewrite Hone; ring | ].
    transitivity (- cs * (sn * tau1 + - cs * tau2)
                  - sn * (- cs * tau1 + - sn * tau2)); [ring | ].
    rewrite H0, H1. ring.
Qed.

(** In binary64 too the assertion of the class body holds, and the stored
    [f] is not [1 - b / a]. *)
Lemma binary64_class_body :
  Binary64.assertion = true
  /\ PrimFloat.eqb Binary64.f (1 - Binary64.b / Binary64.a)%float = false.
Proof. split; vm_compute; reflexivity. Qed.

(** * The routine in general, and its angles in binary64 *)


(** With twice the same angle the matrix is singular. *)
Lemma line_matrix_same_angle (theta : R) :
  det (line_matrix theta theta) = 0 /\ inv (line_matrix theta theta) = None.
Proof.
  assert (Hd : det (line_matrix theta theta) = 0)
    by (unfold det, line_matrix; cbn [m00 m01 m10 m11]; ring).
  split; [exact Hd | now apply inv_singular].
Qed.

Lemma line_coordinates_2d_gen_same_angle (theta : R) (s : WGS84.t) :
  line_coordinates_2d_gen inv theta theta s = (LinAlgError, s).
Proof.
  unfold line_coordinates_2d_gen, bind, getattr, call.
  now rewrite (proj2 (line_matrix_same_angle theta)).
Qed.

(** In binary64 the quarter turn is lost on a latitude of 1e22 degrees:
    [deg2rad lat + pi / 2] rounds to [deg2rad lat]. *)
Lemma binary64_quarter_turn_absorbed :
  Binary64.theta2 1e22 = Binary64.theta1 1e22
  /\ Binary64.theta2 (-1e22) = Binary64.theta1 (-1e22).
Proof. split; vm_compute; reflexivity. Qed.

(** At 45 degrees it is not: the second angle is the double that the
    notebook prints. *)
Lemma binary64_theta2_45 :
  Binary64.theta2 45 = 2.3561944901923448%float.
Proof. vm_compute. reflexivity. Qed.

Lemma line_coordinates_2d_binary64_1e22 (s : WGS84.t) :
  line_coordinates_2d_binary64 1e22 s = (LinAlgError, s)
  /\ line_coordinates_2d_binary64 (-1e22) s = (LinAlgError, s).
Proof.
  unfold line_coordinates_2d_binary64.
  destruct binary64_quarter_turn_absorbed as [-> ->].
  split; apply line_coordinates_2d_gen_same_angle.
Qed.

(** * The claims *)

(** C1, as the specification words it (right-hand side [(0, - delta)]),
    fails at latitude 45: the returned offset is [- e^2 a / 2], the first
    unknown of that system is [+ e^2 a / 2]. *)
Lemma C1_rhs_minus_delta_fails :
  ~ follows_algorithm (fun delta => Vec2 0 (- delta)) wgs84 45.
Proof.
  unfold follows_algorithm. cbv zeta. intros (tau1 & tau2 & Hsys & Hret).
  apply line_system_solution in Hsys. destruct Hsys as [Hsol _].
  rewrite line_coordinates_2d_eq in Hret. cbn [fst] in Hret.
  injection Hret as Htau. unfold offset_formula in Htau.
  rewrite deg2rad_45 in *.
  pose proof wgs84_e2a_pos as Hpos. pose proof sin_cos_quarter as Hsc.
  set (k := WGS84.e wgs84 ^ 2 * WGS84.a wgs84) in *.
  set (sn := sin (PI / 4)) in *. set (cs := cos (PI / 4)) in *.
  assert (Hhalf : cs * (k * sn) = k / 2)
    by (replace (cs * (k * sn)) with (k * (sn * cs)) by ring;
        rewrite Hsc; field).
  lra.
Qed.

(** C1 (as amended): for every latitude between -90 and 90 degrees and
    every value of the class attributes, the routine returns
    [(theta2, tau1)] where [(tau1, tau2)] solves
    [A * (tau1, tau2) = u2 - u1 = (0, delta)], with
    [theta1 = deg2rad lat], [theta2 = theta1 + pi/2],
    [delta = e^2 * a * sin theta1]. *)
Theorem C1_solves_u2_minus_u1 (lat : R) (s : WGS84.t) :
  geodetic lat ->
  follows_algorithm (fun delta => vsub (Vec2 0 delta) (Vec2 0 0)) s lat.
Proof.
  intros _. unfold follows_algorithm. cbv zeta.
  exists (offset_formula s lat).
  exists (- sin (np.deg2rad lat)
          * (WGS84.e s ^ 2 * WGS84.a s * sin (np.deg2rad lat))).
  split.
  - rewrite line_matrix_perp. unfold mulv, vsub, offset_formula.
    cbn [m00 m01 m10 m11 v0 v1]. f_equal; [ring | ].
    generalize (sin2_cos2' (np.deg2rad lat)). intros H.
    set (k := WGS84.e s ^ 2 * WGS84.a s) in *.
    set (sn := sin (np.deg2rad lat)) in *.
    set (cs := cos (np.deg2rad lat)) in *.
    replace (- cs * (- cs * (k * sn)) + - sn * (- sn * (k * sn)))
      with ((sn * sn + cs * cs) * (k * sn)) by ring.
    rewrite H. ring.
  - now rewrite line_coordinates_2d_eq.
Qed.

Lemma C1_solves_u2_minus_u1_witness :
  geodetic 45
  /\ follows_algorithm (fun delta => vsub (Vec2 0 delta) (Vec2 0 0)) wgs84 45.
Proof.
  split; [unfold geodetic; lra | ].
  apply (C1_solves_u2_minus_u1 45 wgs84). unfold geodetic. lra.
Defined.

(** C2: at latitude 45 the routine returns the angle [3 pi / 4], which is
    2.356194490192345 to within 1e-14, and an offset which is
    -21348.836353589373 to within 1e-9. *)
Theorem C2_latitude_45 :
  exists angle offset : R,
    fst (line_coordinates_2d 45 wgs84) = Ok (angle, offset)
    /\ angle = 3 * PI / 4
    /\ Rabs (angle - 2.356194490192345) <= 1e-14
    /\ Rabs (offset - - 21348.836353589373) <= 1e-9.
Proof.
  exists (np.deg2rad 45 + PI / 2), (offset_formula wgs84 45).
  split; [now rewrite line_coordinates_2d_eq | ].
  rewrite deg2rad_45. split; [field | ]. split.
  - pose proof PI_enclosure. apply Rabs_le. lra.
  - unfold offset_formula. rewrite deg2rad_45, wgs84_e_sqr.
    cbn [WGS84.a wgs84].
    pose proof sin_cos_quarter as Hsc.
    set (sn := sin (PI / 4)) in *. set (cs := cos (PI / 4)) in *.
    replace (- cs * ((6378137 ^ 2 - 6356752.31424518 ^ 2) / 6378137 ^ 2
                     * 6378137 * sn))
      with (- (sn * cs) * ((6378137 ^ 2 - 6356752.31424518 ^ 2) / 6378137))
      by (field; lra).
    rewrite Hsc. apply Rabs_le. lra.
Qed.



(** C4, for every latitude, fails at 1e22 degrees: with the angles as
    binary64 computes them the two normals coincide, the call raises at
    1e22 and at -1e22, and there are no two offsets to compare. *)
Lemma C4_no_offsets_at_1e22 :
  ~ (exists t : R,
       offset_of (line_coordinates_2d_binary64 1e22 wgs84) = Some t
       /\ offset_of (line_coordinates_2d_binary64 (-1e22) wgs84)
          = Some (- t)).
Proof.
  intros (t & Ht & _).
  rewrite (proj1 (line_coordinates_2d_binary64_1e22 wgs84)) in Ht.
  discriminate.
Qed.

(** C4 (as amended): for the constants as initialised and a latitude
    between -90 and 90 degrees, the calls at [lat] and at [- lat] both
    return an offset, and the two offsets are opposite to within 1e-9
    (exactly opposite in exact arithmetic, lemma
    [offset_formula_opp]). *)
Theorem C4_offset_odd (lat : R) :
  geodetic lat ->
  exists t t' : R,
    offset_of (line_coordinates_2d lat wgs84) = Some t
    /\ offset_of (line_coordinates_2d (- lat) wgs84) = Some t'
    /\ Rabs (t' + t) <= 1e-9.
Proof.
  intros _. exists (offset_formula wgs84 lat), (offset_formula wgs84 (- lat)).
  rewrite !offset_of_call. repeat split.
  rewrite offset_formula_opp.
  replace (- offset_formula wgs84 lat + offset_formula wgs84 lat) with 0
    by ring.
  rewrite Rabs_R0. lra.
Qed.

Lemma C4_offset_odd_witness :
  geodetic 45
  /\ exists t t' : R,
       offset_of (line_coordinates_2d 45 wgs84) = Some t
       /\ offset_of (line_coordinates_2d (- 45) wgs84) = Some t'
       /\ Rabs (t' + t) <= 1e-9.
Proof.
  split; [unfold geodetic; lra | ].
  apply (C4_offset_odd 45). unfold geodetic. lra.
Defined.

(** C5, for every latitude, fails at 1e22 degrees: in binary64
    [deg2rad lat + pi / 2] rounds to [deg2rad lat], so the matrix built
    from the two angles has determinant 0, not -1, it has no inverse, and
    the call raises [LinAlgError] instead of returning an offset. *)
Lemma C5_singular_at_1e22 :
  let theta1 := Binary64.to_R (Binary64.theta1 1e22) in
  let theta2 := Binary64.to_R (Binary64.theta2 1e22) in
  theta2 = theta1
  /\ det (line_matrix theta1 theta2) = 0
  /\ inv (line_matrix theta1 theta2) = None
  /\ fst (line_coordinates_2d_binary64 1e22 wgs84) = LinAlgError.
Proof.
  cbv zeta. rewrite (proj1 (line_coordinates_2d_binary64_1e22 wgs84)).
  rewrite (proj1 binary64_quarter_turn_absorbed).
  split; [reflexivity | ].
  split; [apply line_matrix_same_angle | ].
  split; [apply line_matrix_same_angle | reflexivity].
Qed.

(** C5 (as amended): for the constants as initialised and a latitude
    between -90 and 90 degrees, the matrix [A] of the routine has
    determinant [sin (theta1 - theta2) = -1]; [inv] returns its inverse
    [Ainv]; the call returns the first component of
    [Ainv * (u2 - u1)] as the offset, and that offset is at most
    [e^2 a / 2] in absolute value.  At latitudes 90 and -90 the offset is
    0 to within 1e-9. *)
Theorem C5_matrix_invertible (lat : R) :
  geodetic lat ->
  let theta1 := np.deg2rad lat in
  let theta2 := np.deg2rad lat + PI / 2 in
  let A := line_matrix theta1 theta2 in
  let delta := WGS84.e wgs84 ^ 2 * WGS84.a wgs84 * sin theta1 in
  det A = sin (theta1 - theta2)
  /\ sin (theta1 - theta2) = -1
  /\ (exists (Ainv : mat2) (t : R),
        inv A = Some Ainv
        /\ mmul A Ainv = eye
        /\ offset_of (line_coordinates_2d lat wgs84) = Some t
        /\ t = v0 (mulv Ainv (vsub (Vec2 0 delta) (Vec2 0 0)))
        /\ Rabs t <= WGS84.e wgs84 ^ 2 * WGS84.a wgs84 / 2)
  /\ (exists t : R,
        offset_of (line_coordinates_2d 90 wgs84) = Some t
        /\ Rabs t <= 1e-9)
  /\ (exists t : R,
        offset_of (line_coordinates_2d (-90) wgs84) = Some t
        /\ Rabs t <= 1e-9).
Proof.
  intros _. cbv zeta.
  assert (Hsin : sin (np.deg2rad lat - (np.deg2rad lat + PI / 2)) = -1).
  { replace (np.deg2rad lat - (np.deg2rad lat + PI / 2)) with (- (PI / 2))
      by ring.
    rewrite sin_neg, sin_PI2. reflexivity. }
  assert (H90 : offset_formula wgs84 90 = 0).
  { unfold offset_formula. rewrite deg2rad_90, cos_PI2. ring. }
  pose proof wgs84_e2a_pos as Hpos.
  split; [rewrite Hsin; apply det_line_matrix | ].
  split; [exact Hsin | ].
  split.
  { eexists. exists (offset_formula wgs84 lat).
    split; [apply inv_line_matrix | ].
    split; [apply (inv_sound _ _ (inv_line_matrix _)) | ].
    split; [apply offset_of_call | ].
    split.
    - unfold offset_formula, mulv, vsub. cbn [m00 m01 m10 m11 v0 v1]. ring.
    - rewrite <- (Rabs_pos_eq (_ / 2)) by lra. apply offset_formula_bound. }
  change (IZR (-90)) with (Ropp (IZR 90)).
  rewrite !offset_of_call, offset_formula_opp, H90.
  split; eexists; (split; [reflexivity | ]).
  - rewrite Rabs_R0. lra.
  - rewrite Ropp_0, Rabs_R0. lra.
Qed.

Lemma C5_matrix_invertible_witness :
  geodetic 45
  /\ let theta1 := np.deg2rad 45 in
     let theta2 := np.deg2rad 45 + PI / 2 in
     let A := line_matrix theta1 theta2 in
     let delta := WGS84.e wgs84 ^ 2 * WGS84.a wgs84 * sin theta1 in
     det A = sin (theta1 - theta2)
     /\ sin (theta1 - theta2) = -1
     /\ (exists (Ainv : mat2) (t : R),
           inv A = Some Ainv
           /\ mmul A Ainv = eye
           /\ offset_of (line_coordinates_2d 45 wgs84) = Some t
           /\ t = v0 (mulv Ainv (vsub (Vec2 0 delta) (Vec2 0 0)))
           /\ Rabs t <= WGS84.e wgs84 ^ 2 * WGS84.a wgs84 / 2)
     /\ (exists t : R,
           offset_of (line_coordinates_2d 90 wgs84) = Some t
           /\ Rabs t <= 1e-9)
     /\ (exists t : R,
           offset_of (line_coordinates_2d (-90) wgs84) = Some t
           /\ Rabs t <= 1e-9).
Proof.
  split; [unfold geodetic; lra | ].
  apply (C5_matrix_invertible 45). unfold geodetic. lra.
Defined.

(** ** The closed-form variant, in exact arithmetic *)

Lemma cramer_solve_inv (A : mat2) (r : vec2) :
  cramer_solve A r = option_map (fun Ainv => mulv Ainv r) (inv A).
Proof.
  unfold cramer_solve, is_zero.
  destruct (Req_dec_T (det A) 0) as [Hd | Hd].
  - now rewrite inv_singular.
  - rewrite inv_regular by exact Hd. cbn [option_map]. f_equal.
    unfold mulv, adjugate_inverse. cbn [m00 m01 m10 m11].
    f_equal; field; exact Hd.
Qed.

(** In exact arithmetic the routine with the closed-form solve is the
    routine. *)
Lemma cramer_variant_exact (lat : R) (s : WGS84.t) :
  line_coordinates_2d_cramer lat s = line_coordinates_2d lat s.
Proof.
  unfold line_coordinates_2d_cramer, line_coordinates_2d, bind, getattr.
  rewrite cramer_solve_inv.
  destruct (inv (line_matrix (np.deg2rad lat) (np.deg2rad lat + PI / 2)));
    reflexivity.
Qed.

(** ** The constants *)

(** C7, read with exact equalities, fails: the stored [f] is not
    [1 - b / a]. *)
Lemma C7_flattening_not_exact :
  ~ (exists s : WGS84.t,
       WGS84.class_body = Some s /\ data_model_relations s).
Proof.
  intros (s & Hs & Hf & _). rewrite class_body_eq in Hs.
  injection Hs as <-. revert Hf. unfold wgs84. cbn [WGS84.f WGS84.b WGS84.a].
  lra.
Qed.

(** C7 (as amended): the class body runs through (its assertion
    [allclose(b, a * (1 - f))] holds) and stores [a = 6378137],
    [b = 6356752.31424518], [f = 1 / 298.257223563] and
    [e = sqrt ((a^2 - b^2) / a^2)]; the stored [f] is [1 - b / a] to within
    1e-15 only, and [b] is [a * (1 - f)] to within 1e-8.  The same holds
    of the doubles: in binary64 the assertion evaluates to true, [f] and
    [1 - b / a] are different doubles, and they are within 1e-15 of each
    other. *)
Theorem C7_constants :
  (exists s : WGS84.t,
     WGS84.class_body = Some s
     /\ WGS84.a s = 6378137
     /\ WGS84.b s = 6356752.31424518
     /\ WGS84.f s = 1 / 298.257223563
     /\ WGS84.e s = sqrt ((WGS84.a s ^ 2 - WGS84.b s ^ 2) / WGS84.a s ^ 2)
     /\ Rabs (WGS84.f s - (1 - WGS84.b s / WGS84.a s)) <= 1e-15
     /\ np.allclose (WGS84.b s) (WGS84.a s * (1 - WGS84.f s)) = true
     /\ Rabs (WGS84.b s - WGS84.a s * (1 - WGS84.f s)) <= 1e-8)
  /\ Binary64.assertion = true
  /\ PrimFloat.eqb Binary64.f (1 - Binary64.b / Binary64.a)%float = false
  /\ PrimFloat.leb
       (PrimFloat.abs (Binary64.f - (1 - Binary64.b / Binary64.a)))%float
       1e-15%float = true.
Proof.
  split.
  - exists wgs84. split; [exact class_body_eq | ].
    unfold wgs84. cbn [WGS84.a WGS84.b WGS84.f WGS84.e].
    repeat (split; [reflexivity | ]).
    split; [apply Rabs_le; lra | ].
    split; [ | apply Rabs_le; lra].
    apply allclose_true. unfold np.atol, np.rtol.
    rewrite (Rabs_pos_eq (6378137 * _)) by lra.
    apply Rabs_le. lra.
  - repeat split; vm_compute; reflexivity.
Qed.

(** ** Purity *)

Lemma line_coordinates_2d_store (lat : R) (s : WGS84.t) :
  snd (line_coordinates_2d lat s) = s.
Proof.
  unfold line_coordinates_2d, bind, getattr, call, ret.
  destruct (inv _); reflexivity.
Qed.

(** C9: every call, and every sequence of calls, leaves the five
    attributes [a], [b], [f], [e], [e_p] of [WGS84] as they were. *)
Theorem C9_constants_unchanged (s : WGS84.t) :
  (forall lat : R,
     let s' := snd (line_coordinates_2d lat s) in
     WGS84.a s' = WGS84.a s /\ WGS84.b s' = WGS84.b s
     /\ WGS84.f s' = WGS84.f s /\ WGS84.e s' = WGS84.e s
     /\ WGS84.e_p s' = WGS84.e_p s)
  /\ (forall lats : list R, snd (call_each lats s) = s).
Proof.
  split.
  - intros lat. cbv zeta. rewrite line_coordinates_2d_store. auto.
  - intros lats. revert s. induction lats as [ | lat rest IH]; intros s.
    + reflexivity.
    + cbn [call_each]. unfold bind at 1.
      pose proof (line_coordinates_2d_store lat s) as Hs.
      destruct (line_coordinates_2d lat s) as [[line | ] s1];
        cbn [snd] in Hs; subst s1; [ | reflexivity].
      unfold bind. specialize (IH s).
      destruct (call_each rest s) as [[lines | ] s2]; exact IH.
Qed.

(** ** The size of the offset *)

(** C10, for every latitude, fails at 1e22 degrees: with the angles as
    binary64 computes them the call raises [LinAlgError]; no offset is
    returned, so none within the bound. *)
Lemma C10_no_offset_at_1e22 :
  ~ (exists t : R,
       offset_of (line_coordinates_2d_binary64 1e22 wgs84) = Some t
       /\ Rabs t <= WGS84.e wgs84 ^ 2 * WGS84.a wgs84 / 2).
Proof.
  intros (t & Ht & _).
  rewrite (proj1 (line_coordinates_2d_binary64_1e22 wgs84)) in Ht.
  discriminate.
Qed.

(** C10 (as amended): for the constants as initialised and a latitude
    between -90 and 90 degrees, the offset returned is
    [- (e^2 a / 2) * sin (2 * deg2rad lat)], so its absolute value is at
    most [e^2 a / 2]; the bound is attained at latitudes 45 and -45. *)
Theorem C10_offset_bounded (lat : R) :
  geodetic lat ->
  let half := WGS84.e wgs84 ^ 2 * WGS84.a wgs84 / 2 in
  (exists t : R,
     offset_of (line_coordinates_2d lat wgs84) = Some t
     /\ t = - half * sin (2 * np.deg2rad lat)
     /\ Rabs t <= half)
  /\ offset_of (line_coordinates_2d 45 wgs84) = Some (- half)
  /\ offset_of (line_coordinates_2d (-45) wgs84) = Some half.
Proof.
  intros _. cbv zeta. pose proof wgs84_e2a_pos as Hpos.
  assert (H45 : offset_formula wgs84 45
                = - (WGS84.e wgs84 ^ 2 * WGS84.a wgs84 / 2)).
  { rewrite offset_formula_double, deg2rad_45.
    replace (2 * (PI / 4)) with (PI / 2) by field. rewrite sin_PI2. ring. }
  split; [ | split].
  - exists (offset_formula wgs84 lat).
    split; [apply offset_of_call | ].
    split; [apply offset_formula_double | ].
    rewrite <- (Rabs_pos_eq (_ / 2)) by lra.
    apply offset_formula_bound.
  - now rewrite offset_of_call, H45.
  - change (IZR (-45)) with (Ropp (IZR 45)).
    rewrite offset_of_call, offset_formula_opp, H45. f_equal. ring.
Qed.

Lemma C10_offset_bounded_witness :
  geodetic 30
  /\ let half := WGS84.e wgs84 ^ 2 * WGS84.a wgs84 / 2 in
     (exists t : R,
        offset_of (line_coordinates_2d 30 wgs84) = Some t
        /\ t = - half * sin (2 * np.deg2rad 30)
        /\ Rabs t <= half)
     /\ offset_of (line_coordinates_2d 45 wgs84) = Some (- half)
     /\ offset_of (line_coordinates_2d (-45) wgs84) = Some half.
Proof.
  split; [unfold geodetic; lra | ].
  apply (C10_offset_bounded 30). unfold geodetic. lra.
Defined.

(** * The plotting cells *)

Lemma combine_fst_snd {A B : Type} (l : list (A * B)) :
  combine (map fst l) (map snd l) = l.
Proof.
  induction l as [ | [x y] l IH]; [reflexivity | ].
  cbn [map combine fst snd]. now rewrite IH.
Qed.

Lemma update_same (h : nat) (g : plt.Axes -> plt.Axes)
    (objs : nat -> plt.Axes) :
  update h g objs h = g (objs h).
Proof. unfold update. now rewrite Nat.eqb_refl. Qed.

Lemma update_other (h k : nat) (g : plt.Axes -> plt.Axes)
    (objs : nat -> plt.Axes) :
  k <> h -> update h g objs k = objs k.
Proof.
  intros Hk. unfold update. apply Nat.eqb_neq in Hk. now rewrite Hk.
Qed.

Lemma drew_refl (h : nat) (w : world) : drew h w w nil.
Proof.
  unfold drew. rewrite app_nil_r. repeat split; reflexivity.
Qed.

Lemma drew_trans (h : nat) (w1 w2 w3 : world) (Ls Ls' : list plt.Line2D) :
  drew h w1 w2 Ls -> drew h w2 w3 Ls' -> drew h w1 w3 (Ls ++ Ls').
Proof.
  unfold drew.
  intros (Ha & Hx & Hf & Ho & Hart & Hxl & Hyl & Hl)
         (Ha' & Hx' & Hf' & Ho' & Hart' & Hxl' & Hyl' & Hl').
  repeat split; try congruence.
  - intros k Hk. rewrite Ho' by exact Hk. now apply Ho.
  - rewrite Hl', Hl. now rewrite app_assoc.
Qed.

(** What [plot_line] does when [ax] is bound. *)
Lemma plot_line_bound (axes : nat) (line : R * R) (tau : list R)
    (col : plt.color) (lw : R) (s : WGS84.t) (h : nat)
    (objs : nat -> plt.Axes) (n : nat) :
  plot_line axes line tau col lw (World s (Some h) objs n)
  = (Returns tt,
     World s (Some h)
       (update h (plt.plot (map fst (pnts line tau))
                           (map snd (pnts line tau)) col lw) objs) n).
Proof. reflexivity. Qed.

Lemma plot_line_drew (axes : nat) (line : R * R) (tau : list R)
    (col : plt.color) (lw : R) (w : world) (h : nat) :
  ax w = Some h ->
  fst (plot_line axes line tau col lw w) = Returns tt
  /\ drew h w (snd (plot_line axes line tau col lw w))
       (plt.mkLine2D (map fst (pnts line tau)) (map snd (pnts line tau))
                     col lw :: nil).
Proof.
  destruct w as [s g objs n]. cbn [ax]. intros ->.
  rewrite plot_line_bound. cbn [fst snd]. split; [reflexivity | ].
  unfold drew. cbn [attrs ax fresh objects]. rewrite update_same.
  repeat split; try reflexivity.
  intros k Hk. now apply update_other.
Qed.

Lemma pnts_length (line : R * R) (tau : list R) :
  length (pnts line tau) = length tau.
Proof. destruct line as [theta t]. unfold pnts. now rewrite !length_map. Qed.

Lemma pnts_nth (theta t : R) (tau : list R) (i : nat) (x : R) :
  nth_error tau i = Some x ->
  nth_error (pnts (theta, t) tau) i
  = Some (t * cos theta + x * sin theta, t * sin theta + x * - cos theta).
Proof.
  intros Hi. unfold pnts. rewrite map_map. cbn [fst snd].
  now rewrite (map_nth_error _ _ _ Hi).
Qed.

(** X1: [plot_line], given a valid colour, ignores its [axes] argument
    and works on the global [ax].  While [ax] is unbound it raises
    [NameError] and changes nothing.  Otherwise it returns, and adds
    exactly one line, of [len(tau)] points and with the given colour and
    width, to the object [ax] is bound to; every other object (the one
    passed as [axes] included, when it is another one), the patches and
    view limits of that object, and the class attributes stay as they
    were. *)
Theorem plot_line_draws_on_global_ax (axes : nat) (line : R * R)
    (tau : list R) (col : plt.color) (lw : R) (w : world) :
  plt.valid_color col ->
  match ax w with
  | None => plot_line axes line tau col lw w = (Raises E_NameError, w)
  | Some h =>
      fst (plot_line axes line tau col lw w) = Returns tt
      /\ exists L : plt.Line2D,
           drew h w (snd (plot_line axes line tau col lw w)) (L :: nil)
           /\ length (plt.xdata L) = length tau
           /\ length (plt.ydata L) = length tau
           /\ plt.c L = col /\ plt.lw L = lw
  end.
Proof.
  intros _. destruct (ax w) as [h | ] eqn:Hax.
  - destruct (plot_line_drew axes line tau col lw w h Hax) as [Hr Hd].
    split; [exact Hr | ]. eexists. split; [exact Hd | ].
    cbn [plt.xdata plt.ydata plt.c plt.lw].
    now rewrite !length_map, pnts_length.
  - destruct w as [s g objs n]. cbn [ax] in Hax. subst g. reflexivity.
Qed.

Lemma plot_line_draws_on_global_ax_witness :
  plt.valid_color default_color
  /\ fst (plot_line 7 (PI / 2, 3) (-1 :: 2 :: nil) default_color
            default_linewidth sample_world) = Returns tt
  /\ exists L : plt.Line2D,
       drew 0 sample_world
         (snd (plot_line 7 (PI / 2, 3) (-1 :: 2 :: nil) default_color
                 default_linewidth sample_world)) (L :: nil)
       /\ length (plt.xdata L) = length (-1 :: 2 :: nil)
       /\ length (plt.ydata L) = length (-1 :: 2 :: nil)
       /\ plt.c L = default_color /\ plt.lw L = default_linewidth.
Proof.
  assert (Hcol : plt.valid_color default_color)
    by (unfold plt.valid_color, default_color; lra).
  split; [exact Hcol | ].
  exact (plot_line_draws_on_global_ax 7 (PI / 2, 3) (-1 :: 2 :: nil)
           default_color default_linewidth sample_world Hcol).
Defined.

(** X2: every point of the line that [plot_line] draws for the line
    coordinates [(theta, t)] satisfies
    [x * cos theta + y * sin theta = t], and there is one point per
    element of [tau]. *)
Theorem plot_line_points_on_line (axes : nat) (theta t : R) (tau : list R)
    (col : plt.color) (lw : R) (w : world) (h : nat) :
  ax w = Some h ->
  exists L : plt.Line2D,
    drew h w (snd (plot_line axes (theta, t) tau col lw w)) (L :: nil)
    /\ length (points L) = length tau
    /\ Forall (fun p => fst p * cos theta + snd p * sin theta = t)
              (points L).
Proof.
  intros Hax.
  destruct (plot_line_drew axes (theta, t) tau col lw w h Hax) as [_ Hd].
  eexists. split; [exact Hd | ].
  unfold points. cbn [plt.xdata plt.ydata]. rewrite combine_fst_snd.
  split; [apply pnts_length | ].
  unfold pnts. rewrite map_map. apply Forall_map, Forall_forall.
  intros x _. cbn [fst snd].
  pose proof (sin2_cos2' theta) as Hone.
  replace ((t * cos theta + x * sin theta) * cos theta
           + (t * sin theta + x * - cos theta) * sin theta)
    with (t * (sin theta * sin theta + cos theta * cos theta)) by ring.
  rewrite Hone. ring.
Qed.

Lemma plot_line_points_on_line_witness :
  ax sample_world = Some 0%nat
  /\ exists L : plt.Line2D,
       drew 0 sample_world
         (snd (plot_line 7 (PI / 2, 3) (-1 :: 2 :: nil)
                 default_color default_linewidth sample_world)) (L :: nil)
       /\ length (points L) = length (-1 :: 2 :: nil)
       /\ Forall (fun p => fst p * cos (PI / 2) + snd p * sin (PI / 2) = 3)
                 (points L).
Proof.
  split; [reflexivity | ].
  apply (plot_line_points_on_line 7 (PI / 2) 3 (-1 :: 2 :: nil)
           default_color default_linewidth sample_world 0).
  reflexivity.
Defined.

(** X3: [tau] is the arc length along the drawn line: the points drawn
    for the elements [ti] and [tj] of [tau] are at distance [|ti - tj|]
    from each other. *)
Theorem plot_line_tau_is_arc_length (axes : nat) (line : R * R)
    (tau : list R) (col : plt.color) (lw : R) (w : world) (h : nat) :
  ax w = Some h ->
  exists L : plt.Line2D,
    drew h w (snd (plot_line axes line tau col lw w)) (L :: nil)
    /\ forall (i j : nat) (ti tj : R),
         nth_error tau i = Some ti -> nth_error tau j = Some tj ->
         exists pi pj : R * R,
           nth_error (points L) i = Some pi
           /\ nth_error (points L) j = Some pj
           /\ sqrt ((fst pi - fst pj) ^ 2 + (snd pi - snd pj) ^ 2)
              = Rabs (ti - tj).
Proof.
  intros Hax. destruct line as [theta t].
  destruct (plot_line_drew axes (theta, t) tau col lw w h Hax) as [_ Hd].
  eexists. split; [exact Hd | ].
  unfold points. cbn [plt.xdata plt.ydata]. rewrite combine_fst_snd.
  intros i j ti tj Hi Hj.
  do 2 eexists. split; [exact (pnts_nth theta t tau i ti Hi) | ].
  split; [exact (pnts_nth theta t tau j tj Hj) | ].
  cbn [fst snd]. pose proof (sin2_cos2' theta) as Hone.
  replace ((t * cos theta + ti * sin theta
            - (t * cos theta + tj * sin theta)) ^ 2
           + (t * sin theta + ti * - cos theta
              - (t * sin theta + tj * - cos theta)) ^ 2)
    with ((sin theta * sin theta + cos theta * cos theta)
          * ((ti - tj) * (ti - tj))) by ring.
  rewrite Hone, Rmult_1_l. apply sqrt_Rsqr_abs.
Qed.

Lemma plot_line_tau_is_arc_length_witness :
  ax sample_world = Some 0%nat
  /\ exists L : plt.Line2D,
       drew 0 sample_world
         (snd (plot_line 7 (PI / 2, 3) (-1 :: 2 :: nil)
                 default_color default_linewidth sample_world)) (L :: nil)
       /\ forall (i j : nat) (ti tj : R),
            nth_error (-1 :: 2 :: nil) i = Some ti ->
            nth_error (-1 :: 2 :: nil) j = Some tj ->
            exists pi pj : R * R,
              nth_error (points L) i = Some pi
              /\ nth_error (points L) j = Some pj
              /\ sqrt ((fst pi - fst pj) ^ 2 + (snd pi - snd pj) ^ 2)
                 = Rabs (ti - tj).
Proof.
  split; [reflexivity | ].
  apply (plot_line_tau_is_arc_length 7 (PI / 2, 3) (-1 :: 2 :: nil)
           default_color default_linewidth sample_world 0).
  reflexivity.
Defined.

Lemma plot_earth_bound (axes : nat) (m0 : R) (rest : list R)
    (s : WGS84.t) (h : nat) (objs : nat -> plt.Axes) (n : nat) :
  plot_earth axes (m0 :: rest) (World s (Some h) objs n)
  = (Returns tt,
     World s (Some h)
       (update h (plt.set_ylim (- (WGS84.b s + last rest m0),
                                WGS84.b s + last rest m0))
          (update h (plt.set_xlim (- (WGS84.a s + m0), WGS84.a s + m0))
             (update h (plt.add_artist (earth_ellipse s)) objs))) n).
Proof. reflexivity. Qed.

(** X4: [plot_earth] with a non-empty [margin], [ax] being bound, and
    [a + margin[0]] and [b + margin[-1]] both different from 0.  The
    call returns; the object behind [ax] (not the one passed as [axes])
    gets one more patch, the ellipse centred at the origin of width [2a]
    and height [2b]; its view limits become [-(a + margin[0]), a +
    margin[0]] and [-(b + margin[-1]), b + margin[-1]]; its lines, the
    other objects and the class attributes stay as they were. *)
Theorem plot_earth_sets_view (axes : nat) (m0 : R) (rest : list R)
    (s : WGS84.t) (h : nat) (objs : nat -> plt.Axes) (n : nat) :
  WGS84.a s + m0 <> 0 ->
  WGS84.b s + last rest m0 <> 0 ->
  let w := World s (Some h) objs n in
  let w' := snd (plot_earth axes (m0 :: rest) w) in
  let A := objects w' h in
  let x_m := WGS84.a s + m0 in
  let y_m := WGS84.b s + last rest m0 in
  fst (plot_earth axes (m0 :: rest) w) = Returns tt
  /\ attrs w' = s /\ ax w' = Some h /\ fresh w' = n
  /\ (forall k : nat, k <> h -> objects w' k = objs k)
  /\ plt.artists A = plt.artists (objs h) ++ earth_ellipse s :: nil
  /\ plt.lines A = plt.lines (objs h)
  /\ plt.xlim A = Some (- x_m, x_m)
  /\ plt.ylim A = Some (- y_m, y_m).
Proof.
  intros _ _. cbv zeta. rewrite plot_earth_bound.
  cbn [attrs ax objects fresh fst snd].
  rewrite !update_same.
  repeat split; try reflexivity.
  intros k Hk. now rewrite !update_other by exact Hk.
Qed.

Lemma plot_earth_sets_view_witness :
  WGS84.a wgs84 + 1000000 <> 0
  /\ WGS84.b wgs84 + last nil 1000000 <> 0
  /\ let w := sample_world in
     let w' := snd (plot_earth 7 default_margin w) in
     let A := objects w' 0 in
     let x_m := WGS84.a wgs84 + 1000000 in
     let y_m := WGS84.b wgs84 + last nil 1000000 in
     fst (plot_earth 7 default_margin w) = Returns tt
     /\ attrs w' = wgs84 /\ ax w' = Some 0%nat /\ fresh w' = 1%nat
     /\ (forall k : nat, k <> 0%nat -> objects w' k = plt.add_subplot)
     /\ plt.artists A
        = plt.artists plt.add_subplot ++ earth_ellipse wgs84 :: nil
     /\ plt.lines A = plt.lines plt.add_subplot
     /\ plt.xlim A = Some (- x_m, x_m)
     /\ plt.ylim A = Some (- y_m, y_m).
Proof.
  assert (Hx : WGS84.a wgs84 + 1000000 <> 0)
    by (cbn [WGS84.a wgs84]; lra).
  assert (Hy : WGS84.b wgs84 + last nil 1000000 <> 0)
    by (cbn [WGS84.b wgs84 last]; lra).
  split; [exact Hx | ]. split; [exact Hy | ].
  exact (plot_earth_sets_view 7 1000000 nil wgs84 0
           (fun _ => plt.add_subplot) 1 Hx Hy).
Defined.

(** X5: after [plot_earth] with non-negative first and last margins the
    whole ellipse is inside the view: the view limits of the object
    behind [ax] are [(- x_m, x_m)] and [(- y_m, y_m)] with [x_m] at least
    half the width and [y_m] at least half the height of the patch just
    added. *)
Theorem plot_earth_view_contains_ellipse (axes : nat) (m0 : R)
    (rest : list R) (s : WGS84.t) (h : nat) (objs : nat -> plt.Axes)
    (n : nat) :
  0 <= m0 -> 0 <= last rest m0 ->
  let w' := snd (plot_earth axes (m0 :: rest) (World s (Some h) objs n)) in
  let A := objects w' h in
  exists (E : plt.Ellipse) (x_m y_m : R),
    plt.artists A = plt.artists (objs h) ++ E :: nil
    /\ plt.xy E = (0, 0)
    /\ plt.xlim A = Some (- x_m, x_m)
    /\ plt.ylim A = Some (- y_m, y_m)
    /\ plt.width E / 2 <= x_m
    /\ plt.height E / 2 <= y_m.
Proof.
  intros Hm0 Hm1. cbv zeta. rewrite plot_earth_bound.
  cbn [attrs ax objects fresh fst snd]. rewrite !update_same.
  exists (earth_ellipse s), (WGS84.a s + m0), (WGS84.b s + last rest m0).
  unfold earth_ellipse. cbn [plt.width plt.height plt.xy].
  repeat split; try reflexivity; lra.
Qed.

Lemma plot_earth_view_contains_ellipse_witness :
  0 <= 1000000 /\ 0 <= last nil 1000000
  /\ let w' := snd (plot_earth 7 default_margin sample_world) in
     let A := objects w' 0 in
     exists (E : plt.Ellipse) (x_m y_m : R),
       plt.artists A = plt.artists plt.add_subplot ++ E :: nil
       /\ plt.xy E = (0, 0)
       /\ plt.xlim A = Some (- x_m, x_m)
       /\ plt.ylim A = Some (- y_m, y_m)
       /\ plt.width E / 2 <= x_m
       /\ plt.height E / 2 <= y_m.
Proof.
  split; [lra | ]. split; [cbn [last]; lra | ].
  apply (plot_earth_view_contains_ellipse 7 1000000 nil wgs84 0
           (fun _ => plt.add_subplot) 1); cbn [last]; lra.
Defined.

(** X6: [plot_earth] with an empty [margin], [ax] being bound, raises
    [IndexError], but only after it has added the ellipse: the object
    behind [ax] has one more patch, and its view limits are untouched. *)
Theorem plot_earth_empty_margin (axes : nat) (s : WGS84.t) (h : nat)
    (objs : nat -> plt.Axes) (n : nat) :
  let w := World s (Some h) objs n in
  let w' := snd (plot_earth axes nil w) in
  let A := objects w' h in
  fst (plot_earth axes nil w) = Raises E_IndexError
  /\ attrs w' = s /\ ax w' = Some h /\ fresh w' = n
  /\ (forall k : nat, k <> h -> objects w' k = objs k)
  /\ plt.artists A = plt.artists (objs h) ++ earth_ellipse s :: nil
  /\ plt.lines A = plt.lines (objs h)
  /\ plt.xlim A = plt.xlim (objs h)
  /\ plt.ylim A = plt.ylim (objs h).
Proof.
  cbv zeta. unfold plot_earth, pbind, attr, lift, getattr, global_ax, method,
    first_item, raise.
  cbn [attrs ax objects fresh fst snd].
  rewrite !update_same.
  repeat split; try reflexivity.
  intros k Hk. now rewrite !update_other by exact Hk.
Qed.

(** ** A latitude and its line *)

Lemma lift_line_coordinates_2d (lat : R) (w : world) :
  lift (line_coordinates_2d lat) w
  = (Returns (np.deg2rad lat + PI / 2, offset_formula (attrs w) lat), w).
Proof.
  destruct w as [s g objs n]. unfold lift. cbn [attrs ax objects fresh].
  now rewrite line_coordinates_2d_eq.
Qed.

Lemma pnts_latitude (s : WGS84.t) (lat : R) (tau : list R) :
  pnts (np.deg2rad lat + PI / 2, offset_formula s lat) tau
  = map (fun x =>
           let theta1 := np.deg2rad lat in
           let delta := WGS84.e s ^ 2 * WGS84.a s * sin theta1 in
           (0 + (x + delta * sin theta1) * cos theta1,
            - delta + (x + delta * sin theta1) * sin theta1)) tau.
Proof.
  unfold pnts. rewrite map_map. apply map_ext. intros x. cbn [fst snd].
  cbv zeta. rewrite sin_shift_quarter, cos_shift_quarter.
  unfold offset_formula. pose proof (sin2_cos2' (np.deg2rad lat)) as Hone.
  set (k := WGS84.e s ^ 2 * WGS84.a s) in *.
  set (sn := sin (np.deg2rad lat)) in *.
  set (cs := cos (np.deg2rad lat)) in *.
  f_equal; [ring | ].
  replace (- (k * sn) + (x + k * sn * sn) * sn)
    with (x * sn + k * sn * (sn * sn + cs * cs) - k * sn - k * sn * cs * cs)
    by ring.
  rewrite Hone. ring.
Qed.

(** X7: the line coordinates returned for a latitude between -90 and 90
    degrees, given to [plot_line], draw the normal of the ellipsoid at
    that latitude: with [theta1 = deg2rad lat] and
    [delta = e^2 a sin theta1], the point drawn for the element [x] of
    [tau] is
    [(0, - delta) + (x + delta * sin theta1) * (cos theta1, sin theta1)];
    so the drawn line passes through [(0, - delta)] on the polar axis and
    has direction [(cos theta1, sin theta1)]. *)
Theorem latitude_line_drawn (lat : R) (axes : nat) (tau : list R)
    (col : plt.color) (lw : R) (w : world) (h : nat) :
  geodetic lat ->
  plt.valid_color col ->
  ax w = Some h ->
  let theta1 := np.deg2rad lat in
  let delta := WGS84.e (attrs w) ^ 2 * WGS84.a (attrs w) * sin theta1 in
  exists (line : R * R) (L : plt.Line2D),
    lift (line_coordinates_2d lat) w = (Returns line, w)
    /\ drew h w (snd (plot_line axes line tau col lw w)) (L :: nil)
    /\ points L
       = map (fun x => (0 + (x + delta * sin theta1) * cos theta1,
                        - delta + (x + delta * sin theta1) * sin theta1))
             tau.
Proof.
  intros _ _ Hax. cbv zeta. do 2 eexists.
  split; [apply lift_line_coordinates_2d | ].
  destruct (plot_line_drew axes
              (np.deg2rad lat + PI / 2, offset_formula (attrs w) lat)
              tau col lw w h Hax) as [_ Hd].
  split; [exact Hd | ].
  unfold points. cbn [plt.xdata plt.ydata].
  rewrite combine_fst_snd. apply pnts_latitude.
Qed.

Lemma latitude_line_drawn_witness :
  geodetic 45 /\ plt.valid_color default_color
  /\ ax sample_world = Some 0%nat
  /\ let theta1 := np.deg2rad 45 in
     let delta :=
       WGS84.e (attrs sample_world) ^ 2 * WGS84.a (attrs sample_world)
       * sin theta1 in
     exists (line : R * R) (L : plt.Line2D),
       lift (line_coordinates_2d 45) sample_world
       = (Returns line, sample_world)
       /\ drew 0 sample_world
            (snd (plot_line 7 line (-1 :: 2 :: nil) default_color
                    default_linewidth sample_world)) (L :: nil)
       /\ points L
          = map (fun x => (0 + (x + delta * sin theta1) * cos theta1,
                           - delta + (x + delta * sin theta1) * sin theta1))
                (-1 :: 2 :: nil).
Proof.
  assert (Hlat : geodetic 45) by (unfold geodetic; lra).
  assert (Hcol : plt.valid_color default_color)
    by (unfold plt.valid_color, default_color; lra).
  split; [exact Hlat | ]. split; [exact Hcol | ].
  split; [reflexivity | ].
  exact (latitude_line_drawn 45 7 (-1 :: 2 :: nil) default_color
           default_linewidth sample_world 0 Hlat Hcol eq_refl).
Defined.

(** X8: while the global [ax] is unbound.  [plot_earth] raises
    [NameError] whatever reference is passed as [axes] and whatever the
    margin (the empty one too), and the loop of the last cell, when its
    first latitude is between -90 and 90 degrees, raises it at that
    latitude, after the call of [line_coordinates_2d]; both leave the
    state as it was.  Over no latitude at all the loop returns. *)
Theorem unbound_ax_raises_NameError (axes : nat) (margin : list R)
    (pseudo_r lat : R) (rest : list R) (s : WGS84.t)
    (objs : nat -> plt.Axes) (n : nat) :
  geodetic lat ->
  let w := World s None objs n in
  plot_earth axes margin w = (Raises E_NameError, w)
  /\ for_lat pseudo_r (lat :: rest) w = (Raises E_NameError, w)
  /\ for_lat pseudo_r nil w = (Returns tt, w).
Proof.
  intros _. cbv zeta. split; [reflexivity | ]. split; [ | reflexivity].
  cbn [for_lat]. unfold pbind at 1. rewrite lift_line_coordinates_2d.
  reflexivity.
Qed.

Lemma unbound_ax_raises_NameError_witness :
  geodetic 15
  /\ let w := World wgs84 None (fun _ => plt.add_subplot) 0 in
     plot_earth 7 nil w = (Raises E_NameError, w)
     /\ for_lat 10 (15 :: 45 :: nil) w = (Raises E_NameError, w)
     /\ for_lat 10 nil w = (Returns tt, w).
Proof.
  assert (Hlat : geodetic 15) by (unfold geodetic; lra).
  split; [exact Hlat | ].
  exact (unbound_ax_raises_NameError 7 nil 10 15 (45 :: nil) wgs84
           (fun _ => plt.add_subplot) 0 Hlat).
Defined.

(** ** The loop and the last cell *)

Lemma for_lat_cons (pseudo_r lat : R) (rest : list R) (w : world) (h : nat) :
  ax w = Some h ->
  for_lat pseudo_r (lat :: rest) w
  = for_lat pseudo_r rest
      (snd (plot_line h
              (np.deg2rad lat + PI / 2, offset_formula (attrs w) lat)
              (- pseudo_r / 2 :: pseudo_r :: nil)
              (1 * lat / 90, 1 * lat / 90, 1 * lat / 90)
              default_linewidth w)).
Proof.
  intros Hax. cbn [for_lat]. unfold pbind at 1.
  rewrite lift_line_coordinates_2d. unfold pbind at 1, global_ax at 1.
  rewrite Hax. unfold pbind at 1.
  destruct (plot_line_drew h
              (np.deg2rad lat + PI / 2, offset_formula (attrs w) lat)
              (- pseudo_r / 2 :: pseudo_r :: nil)
              (1 * lat / 90, 1 * lat / 90, 1 * lat / 90)
              default_linewidth w h Hax) as [Hr _].
  destruct (plot_line _ _ _ _ _ w) as [r w1]. cbn [fst snd] in *.
  now rewrite Hr.
Qed.

(** What the loop does in exact arithmetic and with every colour
    accepted. *)
Lemma for_lat_drew (pseudo_r : R) (lats : list R) (w : world) (h : nat) :
  ax w = Some h ->
  fst (for_lat pseudo_r lats w) = Returns tt
  /\ exists Ls : list plt.Line2D,
       drew h w (snd (for_lat pseudo_r lats w)) Ls
       /\ Forall2
            (fun lat L =>
               Forall (on_latitude_line (attrs w) lat) (points L)
               /\ plt.c L = (lat / 90, lat / 90, lat / 90)
               /\ exists p q : R * R,
                    points L = p :: q :: nil
                    /\ sqrt ((fst p - fst q) ^ 2 + (snd p - snd q) ^ 2)
                       = 3 / 2 * Rabs pseudo_r)
            lats Ls.
Proof.
  revert w. induction lats as [ | lat rest IH]; intros w Hax.
  - cbn [for_lat pret fst snd]. split; [reflexivity | ].
    exists nil. split; [apply drew_refl | constructor].
  - rewrite (for_lat_cons _ _ _ _ _ Hax).
    destruct (plot_line_drew h
                (np.deg2rad lat + PI / 2, offset_formula (attrs w) lat)
                (- pseudo_r / 2 :: pseudo_r :: nil)
                (1 * lat / 90, 1 * lat / 90, 1 * lat / 90)
                default_linewidth w h Hax) as [_ Hd].
    set (w1 := snd (plot_line _ _ _ _ _ w)) in *.
    assert (Hax1 : ax w1 = Some h)
      by (destruct Hd as (_ & Hx & _); now rewrite Hx).
    assert (Hattrs : attrs w1 = attrs w) by (destruct Hd as (Ha & _); exact Ha).
    destruct (IH w1 Hax1) as (Hr & Ls & HLs & Hall).
    split; [exact Hr | ]. eexists. split; [exact (drew_trans _ _ _ _ _ _ Hd HLs) | ].
    cbn [app]. constructor.
    + unfold points. cbn [plt.xdata plt.ydata plt.c].
      rewrite combine_fst_snd, pnts_latitude. cbn [map].
      split; [ | split].
      * repeat constructor; unfold on_latitude_line; cbv zeta; eexists;
          reflexivity.
      * f_equal; [f_equal | ]; field.
      * do 2 eexists. split; [reflexivity | ]. cbn [fst snd].
        pose proof (sin2_cos2' (np.deg2rad lat)) as Hone.
        set (d := WGS84.e (attrs w) ^ 2 * WGS84.a (attrs w)
                  * sin (np.deg2rad lat)) in *.
        set (sn := sin (np.deg2rad lat)) in *.
        set (cs := cos (np.deg2rad lat)) in *.
        replace ((0 + (- pseudo_r / 2 + d * sn) * cs
                  - (0 + (pseudo_r + d * sn) * cs)) ^ 2
                 + (- d + (- pseudo_r / 2 + d * sn) * sn
                    - (- d + (pseudo_r + d * sn) * sn)) ^ 2)
          with ((sn * sn + cs * cs)
                * ((3 / 2 * pseudo_r) * (3 / 2 * pseudo_r))) by field.
        rewrite Hone, Rmult_1_l. fold (Rsqr (3 / 2 * pseudo_r)).
        rewrite sqrt_Rsqr_abs, Rabs_mult.
        rewrite (Rabs_pos_eq (3 / 2)) by lra. reflexivity.
    + rewrite Hattrs in Hall. exact Hall.
Qed.

(** X9: the loop of the last cell, over any list of latitudes between
    0 and 90 degrees and with [ax] bound, does not raise, and adds to the
    object behind [ax] one line per latitude, in the order of the list;
    the line of latitude [lat] has two points, both on the line through
    [(0, - delta)] with direction [(cos theta1, sin theta1)], at distance
    [3/2 * |pseudo_r|] from each other, and the grey level [lat / 90];
    nothing else changes. *)
Theorem for_lat_draws (pseudo_r : R) (lats : list R) (w : world) (h : nat) :
  Forall (fun lat => 0 <= lat <= 90) lats ->
  ax w = Some h ->
  fst (for_lat pseudo_r lats w) = Returns tt
  /\ exists Ls : list plt.Line2D,
       drew h w (snd (for_lat pseudo_r lats w)) Ls
       /\ Forall2
            (fun lat L =>
               Forall (on_latitude_line (attrs w) lat) (points L)
               /\ plt.c L = (lat / 90, lat / 90, lat / 90)
               /\ exists p q : R * R,
                    points L = p :: q :: nil
                    /\ sqrt ((fst p - fst q) ^ 2 + (snd p - snd q) ^ 2)
                       = 3 / 2 * Rabs pseudo_r)
            lats Ls.
Proof. intros _. apply for_lat_drew. Qed.

Lemma for_lat_draws_witness :
  Forall (fun lat => 0 <= lat <= 90) (0 :: 45 :: nil)
  /\ ax sample_world = Some 0%nat
  /\ fst (for_lat 10 (0 :: 45 :: nil) sample_world) = Returns tt
  /\ exists Ls : list plt.Line2D,
       drew 0 sample_world (snd (for_lat 10 (0 :: 45 :: nil) sample_world)) Ls
       /\ Forall2
            (fun lat L =>
               Forall (on_latitude_line (attrs sample_world) lat) (points L)
               /\ plt.c L = (lat / 90, lat / 90, lat / 90)
               /\ exists p q : R * R,
                    points L = p :: q :: nil
                    /\ sqrt ((fst p - fst q) ^ 2 + (snd p - snd q) ^ 2)
                       = 3 / 2 * Rabs 10)
            (0 :: 45 :: nil) Ls.
Proof.
  assert (Hl : Forall (fun lat => 0 <= lat <= 90) (0 :: 45 :: nil))
    by (repeat constructor; lra).
  split; [exact Hl | ]. split; [reflexivity | ].
  exact (for_lat_draws 10 (0 :: 45 :: nil) sample_world 0 Hl eq_refl).
Defined.

(** X10: the last cell runs through from any state.  It binds [ax] to a
    new object and leaves every older object and the class attributes as
    they were.  The new object ends with one patch (the ellipse of width
    [2a] and height [2b]), five lines of two points each, and both view
    limits equal to [(-50000, 50000)]: the limits [plot_earth] had set
    are replaced. *)
Theorem last_cell_result (w : world) :
  let w' := snd (last_cell w) in
  let A := objects w' (fresh w) in
  fst (last_cell w) = Returns tt
  /\ attrs w' = attrs w
  /\ ax w' = Some (fresh w)
  /\ fresh w' = S (fresh w)
  /\ (forall k : nat, k <> fresh w -> objects w' k = objects w k)
  /\ plt.artists A = earth_ellipse (attrs w) :: nil
  /\ length (plt.lines A) = 5%nat
  /\ Forall (fun L => length (points L) = 2%nat) (plt.lines A)
  /\ plt.xlim A = Some (- 50000, 50000)
  /\ plt.ylim A = Some (- 50000, 50000).
Proof.
  destruct w as [s g objs n]. cbv zeta. cbn [attrs fresh objects].
  destruct (last_cell (World s g objs n)) as [res w'] eqn:E.
  cbn [fst snd].
  unfold last_cell in E. unfold pbind at 1, new_axes in E.
  cbn [attrs ax objects fresh] in E.
  unfold pbind at 1, global_ax at 1 in E. cbn [ax] in E.
  unfold pbind at 1, default_margin in E. rewrite plot_earth_bound in E.
  unfold pbind at 1, attr at 1, lift at 1, getattr in E.
  cbn [attrs ax objects fresh] in E.
  unfold pbind at 1, attr at 1, lift at 1, getattr in E.
  cbn [attrs ax objects fresh] in E.
  unfold pbind at 1 in E.
  match type of E with
  | context [for_lat ?r ?lats ?w0] =>
      destruct (for_lat_drew r lats w0 n eq_refl)
        as (Hr & Ls & (Ha & Hx & Hf & Ho & Hart & Hxl & Hyl & Hl) & Hall);
      destruct (for_lat r lats w0) as [r1 w1]
  end.
  cbn [fst snd attrs ax objects fresh] in *. subst r1.
  unfold pbind at 1, global_ax at 1 in E. rewrite Hx in E.
  unfold pbind at 1, method at 1 in E.
  unfold pbind at 1, global_ax at 1 in E. cbn [ax] in E. rewrite Hx in E.
  unfold method in E. cbn [attrs ax objects fresh] in E.
  injection E as <- <-. cbn [attrs ax objects fresh].
  rewrite !update_same in *. rewrite Nat.eqb_refl in *.
  cbn [plt.artists plt.lines plt.xlim plt.ylim plt.set_xlim plt.set_ylim
       plt.add_artist plt.add_subplot app] in *.
  assert (Hlen : length Ls = 5%nat)
    by (apply Forall2_length in Hall; now rewrite <- Hall).
  repeat split; try assumption; try reflexivity.
  - intros k Hk. rewrite !update_other by exact Hk. rewrite (Ho k Hk).
    rewrite !update_other by exact Hk.
    apply Nat.eqb_neq in Hk. now rewrite Hk.
  - now rewrite Hl.
  - rewrite Hl. cbn [app]. clear - Hall.
    induction Hall as [ | lat L lats Ls (_ & _ & p & q & Hpq & _) _ IH];
      constructor; [now rewrite Hpq | exact IH].
Qed.



(** ** More on the constants and on the offset *)

(** X12: the two eccentricities of the class body.  [e^2] is
    0.00669437999014 and [e_p^2] is 0.00673949674228, both to within
    1e-14; they are linked by [e_p^2 = e^2 / (1 - e^2)] and by
    [e_p * b = e * a]; and [0 < e < e_p < 1]. *)
Theorem eccentricities :
  exists s : WGS84.t,
    WGS84.class_body = Some s
    /\ Rabs (WGS84.e s ^ 2 - 0.00669437999014) <= 1e-14
    /\ Rabs (WGS84.e_p s ^ 2 - 0.00673949674228) <= 1e-14
    /\ WGS84.e_p s ^ 2 = WGS84.e s ^ 2 / (1 - WGS84.e s ^ 2)
    /\ WGS84.e_p s * WGS84.b s = WGS84.e s * WGS84.a s
    /\ 0 < WGS84.e s < WGS84.e_p s /\ WGS84.e_p s < 1.
Proof.
  exists wgs84. split; [exact class_body_eq | ].
  pose proof wgs84_e_sqr as He.
  assert (Hep : WGS84.e_p wgs84 ^ 2
                = (6378137 ^ 2 - 6356752.31424518 ^ 2)
                  / 6356752.31424518 ^ 2).
  { unfold wgs84. cbn [WGS84.e_p]. rewrite pow2_sqrt; [reflexivity | ].
    apply Rlt_le, Rdiv_lt_0_compat; lra. }
  assert (He0 : 0 < WGS84.e wgs84).
  { unfold wgs84. cbn [WGS84.e]. apply sqrt_lt_R0, Rdiv_lt_0_compat; lra. }
  assert (Hep0 : 0 < WGS84.e_p wgs84).
  { unfold wgs84. cbn [WGS84.e_p]. apply sqrt_lt_R0, Rdiv_lt_0_compat; lra. }
  split; [rewrite He; apply Rabs_le; lra | ].
  split; [rewrite Hep; apply Rabs_le; lra | ].
  split; [rewrite He, Hep; field; lra | ].
  assert (Hprod : (WGS84.e_p wgs84 * WGS84.b wgs84) ^ 2
                  = (WGS84.e wgs84 * WGS84.a wgs84) ^ 2).
  { rewrite !Rpow_mult_distr, He, Hep. cbn [WGS84.a WGS84.b wgs84].
    field. lra. }
  split.
  { apply Rsqr_inj.
    - cbn [WGS84.b wgs84]. apply Rlt_le, Rmult_lt_0_compat; [exact Hep0 | lra].
    - cbn [WGS84.a wgs84]. apply Rlt_le, Rmult_lt_0_compat; [exact He0 | lra].
    - rewrite !Rsqr_pow2. exact Hprod. }
  assert (Hlt : WGS84.e wgs84 ^ 2 < WGS84.e_p wgs84 ^ 2)
    by (rewrite He, Hep; lra).
  assert (Hlt1 : WGS84.e_p wgs84 ^ 2 < 1) by (rewrite Hep; lra).
  repeat split; [exact He0 | nra | nra].
Qed.

(** X14: for the constants as initialised and a latitude between 0 and
    90 degrees, the call returns an offset that is not positive. *)
Theorem offset_not_positive_north (lat : R) :
  0 <= lat <= 90 ->
  exists t : R,
    offset_of (line_coordinates_2d lat wgs84) = Some t /\ t <= 0.
Proof.
  intros [Hlo Hhi]. pose proof wgs84_e2a_pos as Hpos.
  pose proof PI_RGT_0 as Hpi.
  rewrite offset_of_call, offset_formula_double.
  eexists. split; [reflexivity | ].
  assert (Hsin : 0 <= sin (2 * np.deg2rad lat)).
  { replace (2 * np.deg2rad lat) with (lat / 90 * PI)
      by (unfold np.deg2rad; field).
    apply sin_ge_0; nra. }
  nra.
Qed.

Lemma offset_not_positive_north_witness :
  0 <= 30 <= 90
  /\ exists t : R,
       offset_of (line_coordinates_2d 30 wgs84) = Some t /\ t <= 0.
Proof.
  split; [lra | apply (offset_not_positive_north 30); lra].
Defined.
